(** * S/MIME signing core of the sigh milter (src/smime.h)

    The repository ships only the declarations of class [smime::Smime]
    (src/smime.h); the bodies of its constructor, [sign], [addHeader],
    [removeHeader], [handleSSLError] and [loadIntermediate] are not part of
    the sources.  They are modelled below from the specification, keeping the
    names and the division into methods of the header.  Cryptographic
    primitives (OpenSSL) are an abstract capability provider. *)

From Stdlib Require Import String Ascii List Bool ZArith Lia.
From stdpp Require Import base gmap strings list.
Import ListNotations.

(* ------------------------------------------------------------------ *)
(** ** Failures of the signing path *)

Inductive SignError :=
| NotFound          (* no certificate/key registered for the sender *)
| ParseError        (* malformed intermediate bundle *)
| CryptoFailure     (* key could not be loaded / signing rejected *)
| EncodingFailure   (* MIME serialisation failed *)
| SessionError.     (* the milter host refused a mutation *)

Inductive result (A : Type) :=
| Ok (a : A)
| Err (e : SignError).
Arguments Ok {A} a.
Arguments Err {A} e.

Definition rbind {A B} (r : result A) (k : A -> result B) : result B :=
  match r with
  | Ok a => k a
  | Err e => Err e
  end.

Notation "'let!' x := r 'in' k" := (rbind r (fun x => k))
  (at level 200, x name, r at level 100, k at level 200).

Definition of_option {A} (e : SignError) (o : option A) : result A :=
  match o with
  | Some a => Ok a
  | None => Err e
  end.

(* ------------------------------------------------------------------ *)
(** ** Opaque cryptographic objects and the OpenSSL capability provider *)

Definition Cert := string.     (* an X509 certificate (DER payload) *)
Definition Key := string.      (* an EVP_PKEY *)
Definition Sig := string.      (* a detached PKCS7 signed-data structure *)

Record CryptoProvider := {
  (* PEM payload of one certificate block -> X509, or a decoding error *)
  cp_decode_cert : string -> option Cert;
  (* PEM private key -> EVP_PKEY *)
  cp_load_key : string -> option Key;
  (* PKCS7_sign(cert, key, extra certs, data, PKCS7_DETACHED) *)
  cp_sign : Key -> Cert -> list Cert -> string -> option Sig;
  (* SMIME/base64 serialisation of the PKCS7 structure *)
  cp_encode : Sig -> option string;
  (* the external verifier: signer, chain, signed data, signature *)
  cp_verify : Cert -> list Cert -> string -> Sig -> bool
}.

(* ------------------------------------------------------------------ *)
(** ** Normalisation of the MAIL FROM address (member [mailFrom]) *)

Definition is_angle (c : ascii) : bool :=
  Ascii.eqb c "<"%char || Ascii.eqb c ">"%char.

(** Modelled from the spec: the body of the constructor [Smime(SMFICTX * )]
    that fills [mailFrom]; "we strip away '<' and '>'" (smime.h), the
    certificate store being "keyed by normalized sender address (angle
    brackets stripped, case as supplied)". *)
Fixpoint stripAngles (s : string) : string :=
  match s with
  | EmptyString => EmptyString
  | String c r => if is_angle c then stripAngles r else String c (stripAngles r)
  end.

(* ------------------------------------------------------------------ *)
(** ** [Smime::loadIntermediate] *)

Definition BEGIN_CERT : string := "-----BEGIN CERTIFICATE-----".
Definition END_CERT : string := "-----END CERTIFICATE-----".

(** Modelled from the spec: the body of [Smime::loadIntermediate].  The
    bundle is read line by line; lines outside a certificate block are
    skipped, the payload of each block is decoded, and the decoded
    certificate is pushed at the end of the stack ([sk_X509_push]).  A block
    that does not decode or is not terminated jumps to the error label
    ([ParseError]).  [inblock] holds the payload lines of an open block. *)
Fixpoint pemLoop (cp : CryptoProvider) (ls : list string)
    (inblock : option (list string)) (stack : list Cert) : result (list Cert) :=
  match ls, inblock with
  | [], None => Ok stack
  | [], Some _ => Err ParseError
  | l :: r, None =>
      if String.eqb l BEGIN_CERT then pemLoop cp r (Some []) stack
      else pemLoop cp r None stack
  | l :: r, Some body =>
      if String.eqb l END_CERT then
        match cp_decode_cert cp (String.concat "" body) with
        | Some c => pemLoop cp r None (stack ++ [c])
        | None => Err ParseError
        end
      else pemLoop cp r (Some (body ++ [l])) stack
  end.

(** The file system: path -> lines of the file; an absent path is an absent
    file, which yields an empty chain since intermediates are optional. *)
Definition loadIntermediate (cp : CryptoProvider) (fs : gmap string (list string))
    (path : string) : result (list Cert) :=
  match fs !! path with
  | None => Ok []
  | Some ls => pemLoop cp ls None []
  end.

(** A bundle described by its segments: one line of filler text, or one
    certificate block given by its payload lines. *)
Inductive Segment :=
| SNoise (line : string)
| SCert (payload : list string).

Definition renderSegment (sg : Segment) : list string :=
  match sg with
  | SNoise l => [l]
  | SCert p => BEGIN_CERT :: p ++ [END_CERT]
  end.

Definition renderBundle (sgs : list Segment) : list string :=
  concat (map renderSegment sgs).

(** A filler line is anything but the opening line of a certificate block;
    a valid certificate block has payload lines other than the closing line
    and a payload that decodes. *)
Definition segmentOk (cp : CryptoProvider) (sg : Segment) : Prop :=
  match sg with
  | SNoise l => l <> BEGIN_CERT
  | SCert p => Forall (fun l => l <> END_CERT) p /\
               cp_decode_cert cp (String.concat "" p) <> None
  end.

Definition segmentCert (cp : CryptoProvider) (sg : Segment) : option Cert :=
  match sg with
  | SNoise _ => None
  | SCert p => cp_decode_cert cp (String.concat "" p)
  end.

Definition countCerts (sgs : list Segment) : nat :=
  length (List.filter (fun sg => match sg with SCert _ => true | _ => false end) sgs).

(* ------------------------------------------------------------------ *)
(** ** The in-flight message and the milter host (SMFICTX) *)

Definition CR : ascii := ascii_of_nat 13.
Definition LF : ascii := ascii_of_nat 10.
Definition CRLF : string := String CR (String LF EmptyString).

(** Canonical line endings before signing: a bare LF becomes CRLF. *)
Fixpoint toCRLF (s : string) (prevCR : bool) : string :=
  match s with
  | EmptyString => EmptyString
  | String c r =>
      if Ascii.eqb c LF && negb prevCR then String CR (String LF (toCRLF r false))
      else String c (toCRLF r (Ascii.eqb c CR))
  end.

Record Message := {
  msg_headers : list (string * string);
  msg_body : string
}.

(** The three mutation primitives of the host. *)
Inductive Mutation :=
| AddHeader (name value : string)      (* smfi_addheader *)
| RemoveHeader (name : string)         (* smfi_chgheader(.., NULL) *)
| ReplaceBody (body : string).         (* smfi_replacebody *)

(** The host applies mutations in the order issued and logs each call with
    whether it was accepted; past [host_cutoff] calls it refuses them (the
    transaction is past the point where changes are accepted). *)
Record Host := {
  host_msg : Message;
  host_log : list (Mutation * bool);
  host_cutoff : option nat
}.

Definition applyMutation (m : Message) (mu : Mutation) : Message :=
  match mu with
  | AddHeader n v =>
      {| msg_headers := msg_headers m ++ [(n, v)]; msg_body := msg_body m |}
  | RemoveHeader n =>
      {| msg_headers := List.filter (fun h => negb (String.eqb (fst h) n)) (msg_headers m);
         msg_body := msg_body m |}
  | ReplaceBody b => {| msg_headers := msg_headers m; msg_body := b |}
  end.

Definition hostAccepts (h : Host) : bool :=
  match host_cutoff h with
  | None => true
  | Some n => Nat.ltb (length (host_log h)) n
  end.

Definition smfiCall (h : Host) (mu : Mutation) : Host * bool :=
  if hostAccepts h then
    ({| host_msg := applyMutation (host_msg h) mu;
        host_log := host_log h ++ [(mu, true)];
        host_cutoff := host_cutoff h |}, true)
  else
    ({| host_msg := host_msg h;
        host_log := host_log h ++ [(mu, false)];
        host_cutoff := host_cutoff h |}, false).

(* ------------------------------------------------------------------ *)
(** ** class Smime *)

Record Smime := {
  ctx : Host;
  smimeSigned : bool;
  genericError : bool;   (* the client's genericError flag (handleSSLError) *)
  mailFrom : string
}.

Definition withCtx (s : Smime) (h : Host) : Smime :=
  {| ctx := h; smimeSigned := smimeSigned s; genericError := genericError s;
     mailFrom := mailFrom s |}.

Definition setSigned (s : Smime) (b : bool) : Smime :=
  {| ctx := ctx s; smimeSigned := b; genericError := genericError s;
     mailFrom := mailFrom s |}.

(** Modelled from the spec: the constructor [Smime(SMFICTX * )]; it borrows
    the context, starts unsigned and normalises the sender address. *)
Definition newSmime (h : Host) (rawFrom : string) : Smime :=
  {| ctx := h; smimeSigned := false; genericError := false;
     mailFrom := stripAngles rawFrom |}.

Definition isSmimeSigned (s : Smime) : bool := smimeSigned s.

(** Modelled from the spec: [Smime::handleSSLError]; marks the session
    unsuccessful and sets the client's generic error flag. *)
Definition handleSSLError (s : Smime) : Smime :=
  {| ctx := ctx s; smimeSigned := false; genericError := true;
     mailFrom := mailFrom s |}.

(** Modelled from the spec: [Smime::addHeader] and [Smime::removeHeader]
    (0 = MI_SUCCESS, -1 = MI_FAILURE); [replaceBody] is the third host
    primitive called by [sign]. *)
Definition issue (s : Smime) (mu : Mutation) : Smime * Z :=
  let '(h, ok) := smfiCall (ctx s) mu in (withCtx s h, if ok then 0%Z else (-1)%Z).

Definition addHeader (s : Smime) (n v : string) : Smime * Z := issue s (AddHeader n v).
Definition removeHeader (s : Smime) (n : string) : Smime * Z := issue s (RemoveHeader n).
Definition replaceBody (s : Smime) (b : string) : Smime * Z := issue s (ReplaceBody b).

Definition callMutation (s : Smime) (mu : Mutation) : Smime * Z :=
  match mu with
  | AddHeader n v => addHeader s n v
  | RemoveHeader n => removeHeader s n
  | ReplaceBody b => replaceBody s b
  end.

(** Mutations are issued one by one and each return code is checked; the
    first refusal stops the sequence with [SessionError], leaving what was
    already applied in place. *)
Fixpoint applyMutations (s : Smime) (ops : list Mutation) : Smime * option SignError :=
  match ops with
  | [] => (s, None)
  | mu :: r =>
      let '(s', rc) := callMutation s mu in
      if Z.eqb rc 0 then applyMutations s' r else (s', Some SessionError)
  end.

(* ------------------------------------------------------------------ *)
(** ** Certificate store and signing engine *)

(** An entry of the certificate store: the signer certificate, its PEM
    private key and the path of its intermediate bundle. *)
Record Identity := {
  id_cert : Cert;
  id_key_pem : string;
  id_intermediate : string
}.

Record Env := {
  env_store : gmap string Identity;
  env_fs : gmap string (list string);
  env_cp : CryptoProvider
}.

Definition contentHeaderNames : list string :=
  ["Content-Type"; "Content-Transfer-Encoding"].

Definition isContentHeader (n : string) : bool :=
  existsb (String.eqb n) contentHeaderNames.

Definition renderHeader (h : string * string) : string :=
  (fst h ++ ": " ++ snd h ++ CRLF)%string.

(** The first MIME part: the original content-describing headers, a blank
    line and the body with canonical line endings. *)
Definition firstPart (m : Message) : string :=
  (String.concat "" (map renderHeader
     (List.filter (fun h => isContentHeader (fst h)) (msg_headers m)))
   ++ CRLF ++ toCRLF (msg_body m) false)%string.

Definition BOUNDARY : string := "----sigh-smime-boundary".

Definition signedContentType : string :=
  ("multipart/signed; protocol=application/pkcs7-signature; micalg=sha-256; boundary="
   ++ BOUNDARY)%string.

Definition sigPartHeaders : string :=
  ("Content-Type: application/pkcs7-signature; name=smime.p7s" ++ CRLF ++
   "Content-Transfer-Encoding: base64" ++ CRLF ++
   "Content-Disposition: attachment; filename=smime.p7s" ++ CRLF ++ CRLF)%string.

(** multipart/signed body: first part, then the detached signature part. *)
Definition renderSigned (part1 enc : string) : string :=
  ("--" ++ BOUNDARY ++ CRLF ++ part1 ++ CRLF ++
   "--" ++ BOUNDARY ++ CRLF ++ sigPartHeaders ++ enc ++ CRLF ++
   "--" ++ BOUNDARY ++ "--" ++ CRLF)%string.

Record Artifact := {
  art_chain : list Cert;     (* leaf first, then the intermediates *)
  art_part1 : string;
  art_sig : Sig;
  art_enc : string;
  art_mime : string
}.

(** The Header Delta: names to remove, then headers to add. *)
Definition headersToRemove : list string :=
  ["MIME-Version"; "Content-Type"; "Content-Transfer-Encoding"].

Definition headersToAdd : list (string * string) :=
  [("MIME-Version", "1.0"); ("Content-Type", signedContentType)].

(** The mutations issued by [sign], in issue order. *)
Definition mutationPlan (a : Artifact) : list Mutation :=
  map RemoveHeader headersToRemove ++
  map (fun h => AddHeader (fst h) (snd h)) headersToAdd ++
  [ReplaceBody (art_mime a)].

(** Modelled from the spec: the part of [Smime::sign] before any mutation:
    locate the signer, load the key, resolve the chain, sign and encode. *)
Definition prepare (env : Env) (s : Smime) : result Artifact :=
  let cp := env_cp env in
  let! id := of_option NotFound (env_store env !! mailFrom s) in
  let! key := of_option CryptoFailure (cp_load_key cp (id_key_pem id)) in
  let! inter := loadIntermediate cp (env_fs env) (id_intermediate id) in
  let part1 := firstPart (host_msg (ctx s)) in
  let! sg := of_option CryptoFailure (cp_sign cp key (id_cert id) inter part1) in
  let! enc := of_option EncodingFailure (cp_encode cp sg) in
  Ok {| art_chain := id_cert id :: inter; art_part1 := part1; art_sig := sg;
        art_enc := enc; art_mime := renderSigned part1 enc |}.

Inductive Outcome :=
| Signed (a : Artifact)
| Unsigned (e : SignError).

(** Modelled from the spec: [Smime::sign].  Every failure is caught here:
    [NotFound] only leaves the session unsigned, the other failures go
    through [handleSSLError]. *)
Definition signRun (env : Env) (s : Smime) : Smime * Outcome :=
  match prepare env s with
  | Err NotFound => (setSigned s false, Unsigned NotFound)
  | Err e => (handleSSLError s, Unsigned e)
  | Ok a =>
      match applyMutations s (mutationPlan a) with
      | (s', None) => (setSigned s' true, Signed a)
      | (s', Some e) => (handleSSLError s', Unsigned e)
      end
  end.

Definition sign (env : Env) (s : Smime) : Smime := fst (signRun env s).

(** A session on which [sign] is called several times. *)
Fixpoint signMany (envs : list Env) (s : Smime) : Smime * list Outcome :=
  match envs with
  | [] => (s, [])
  | e :: r =>
      let '(s1, o) := signRun e s in
      let '(s2, os) := signMany r s1 in (s2, o :: os)
  end.

(** Mutations issued during one call: the suffix of the host log. *)
Definition newCalls (s s' : Smime) : list (Mutation * bool) :=
  drop (length (host_log (ctx s))) (host_log (ctx s')).

(** The log entries of a sequence of mutations that were all accepted. *)
Definition accepted (ops : list Mutation) : list (Mutation * bool) :=
  map (fun m => (m, true)) ops.

(** Kind of a mutation in the issue order required by the host protocol:
    removals, then additions, then the body. *)
Definition mutationRank (mu : Mutation) : nat :=
  match mu with
  | RemoveHeader _ => 0
  | AddHeader _ _ => 1
  | ReplaceBody _ => 2
  end.

(* ------------------------------------------------------------------ *)
(** ** A concrete provider, for evaluating the model *)

(** Toy primitives: a certificate payload decodes when it is non-empty, a
    key PEM loads when it is non-empty, the key must be the certificate's,
    a signature names the signer and the data. *)
Definition toyProvider : CryptoProvider := {|
  cp_decode_cert := fun p => if String.eqb p "" then None else Some p;
  cp_load_key := fun k => if String.eqb k "" then None else Some k;
  cp_sign := fun k c _ d => if String.eqb k c then Some (c ++ "|" ++ d)%string else None;
  cp_encode := fun sg => Some sg;
  cp_verify := fun c _ d sg => String.eqb sg (c ++ "|" ++ d)%string
|}.

(** Sample sessions: alice has a certificate and key and no bundle, carol's
    key does not load, bob is not registered. *)
Definition aliceId : Identity :=
  {| id_cert := "alice"; id_key_pem := "alice"; id_intermediate := "/etc/sigh/alice.pem" |}.

Definition carolId : Identity :=
  {| id_cert := "carol"; id_key_pem := ""; id_intermediate := "/etc/sigh/carol.pem" |}.

Definition sampleSegs : list Segment :=
  [SNoise "# intermediates, edited by hand"; SCert ["QUJD"; "REVG"]; SNoise "";
   SCert ["R0hJ"]].

Definition sampleFs : gmap string (list string) :=
  <["/etc/sigh/chain.pem" := renderBundle sampleSegs]>
  (<["/etc/sigh/bad.pem" := renderBundle sampleSegs ++ BEGIN_CERT :: [""; END_CERT; "x"]]>
  (<["/etc/sigh/open.pem" := renderBundle sampleSegs ++ [BEGIN_CERT; "SktM"]]> ∅)).

Definition sampleEnv : Env := {|
  env_store := <["alice@example.com" := aliceId]> (<["carol@example.com" := carolId]> ∅);
  env_fs := sampleFs;
  env_cp := toyProvider
|}.

Definition sampleHost : Host := {|
  host_msg := {| msg_headers := [("Subject", "hello"); ("Content-Type", "text/plain")];
                 msg_body := "line one" ++ String LF "line two" |};
  host_log := [];
  host_cutoff := None
|}.

(* ================================================================== *)
(** * Properties *)

Module Loader.

Lemma eqb_neq (a b : string) : a <> b -> String.eqb a b = false.
Proof. intros H. apply String.eqb_neq. exact H. Qed.

(** Payload lines of an open block are accumulated until the closing line. *)
Lemma pemLoop_block cp p body rest stack :
  Forall (fun l => l <> END_CERT) p ->
  pemLoop cp (p ++ END_CERT :: rest) (Some body) stack =
  match cp_decode_cert cp (String.concat "" (body ++ p)) with
  | Some c => pemLoop cp rest None (stack ++ [c])
  | None => Err ParseError
  end.
Proof.
  revert body. induction p as [|l p IH]; intros body Hp; simpl.
  - rewrite app_nil_r. reflexivity.
  - inversion Hp as [|? ? Hl Hp']; subst.
    rewrite (eqb_neq _ _ Hl), IH by exact Hp'.
    rewrite <- app_assoc. reflexivity.
Qed.

(** An open block that is never closed is a parse error. *)
Lemma pemLoop_truncated cp p body stack :
  Forall (fun l => l <> END_CERT) p ->
  pemLoop cp p (Some body) stack = Err ParseError.
Proof.
  revert body. induction p as [|l p IH]; intros body Hp; simpl.
  - reflexivity.
  - inversion Hp as [|? ? Hl Hp']; subst.
    rewrite (eqb_neq _ _ Hl). apply IH. exact Hp'.
Qed.

(** A well-formed prefix of segments pushes its certificates in order. *)
Lemma pemLoop_bundle cp sgs rest stack :
  Forall (segmentOk cp) sgs ->
  pemLoop cp (renderBundle sgs ++ rest) None stack =
  pemLoop cp rest None (stack ++ omap (segmentCert cp) sgs).
Proof.
  revert stack. induction sgs as [|sg sgs IH]; intros stack Hok.
  - simpl. rewrite app_nil_r. reflexivity.
  - inversion Hok as [|? ? Hsg Hok']; subst.
    unfold renderBundle. simpl. rewrite <- app_assoc.
    fold (renderBundle sgs).
    destruct sg as [l|p]; simpl in *.
    + rewrite (eqb_neq _ _ Hsg). rewrite IH by exact Hok'. reflexivity.
    + destruct Hsg as [Hp Hdec].
      rewrite <- app_assoc. simpl.
      rewrite pemLoop_block by exact Hp. simpl.
      destruct (cp_decode_cert cp (String.concat "" p)) as [c|] eqn:E;
        [|contradiction].
      rewrite IH by exact Hok'. rewrite <- app_assoc. reflexivity.
Qed.

Lemma omap_segmentCert_length cp sgs :
  Forall (segmentOk cp) sgs ->
  length (omap (segmentCert cp) sgs) = countCerts sgs.
Proof.
  unfold countCerts. induction sgs as [|sg sgs IH]; intros Hok; [reflexivity|].
  inversion Hok as [|? ? Hsg Hok']; subst.
  destruct sg as [l|p]; simpl.
  - apply IH. exact Hok'.
  - destruct Hsg as [_ Hdec].
    destruct (cp_decode_cert cp (String.concat "" p)); [|contradiction].
    simpl. f_equal. apply IH. exact Hok'.
Qed.

(** C2: a bundle of N valid certificate blocks interspersed with filler
    lines loads as exactly N certificates, in file order. *)
Theorem loadIntermediate_bundle cp fs path sgs :
  fs !! path = Some (renderBundle sgs) ->
  Forall (segmentOk cp) sgs ->
  loadIntermediate cp fs path = Ok (omap (segmentCert cp) sgs) /\
  length (omap (segmentCert cp) sgs) = countCerts sgs.
Proof.
  intros Hfs Hok. unfold loadIntermediate. rewrite Hfs. split.
  - rewrite <- (app_nil_r (renderBundle sgs)).
    rewrite pemLoop_bundle by exact Hok. reflexivity.
  - apply omap_segmentCert_length. exact Hok.
Qed.

(** C7: an absent bundle is an empty chain; a bundle whose certificate data
    is malformed (a block that does not decode, or a block left open) is a
    [ParseError], whatever follows it. *)
Theorem loadIntermediate_absent_or_malformed :
  (forall cp fs path, fs !! path = None -> loadIntermediate cp fs path = Ok []) /\
  (forall cp fs path pre p rest,
     Forall (segmentOk cp) pre ->
     Forall (fun l => l <> END_CERT) p ->
     cp_decode_cert cp (String.concat "" p) = None ->
     fs !! path = Some (renderBundle pre ++ BEGIN_CERT :: p ++ END_CERT :: rest) ->
     loadIntermediate cp fs path = Err ParseError) /\
  (forall cp fs path pre p,
     Forall (segmentOk cp) pre ->
     Forall (fun l => l <> END_CERT) p ->
     fs !! path = Some (renderBundle pre ++ BEGIN_CERT :: p) ->
     loadIntermediate cp fs path = Err ParseError).
Proof.
  split; [|split].
  - intros cp fs path H. unfold loadIntermediate. rewrite H. reflexivity.
  - intros cp fs path pre p rest Hpre Hp Hdec Hfs.
    unfold loadIntermediate. rewrite Hfs, pemLoop_bundle by exact Hpre.
    simpl. rewrite pemLoop_block by exact Hp.
    simpl. rewrite Hdec. reflexivity.
  - intros cp fs path pre p Hpre Hp Hfs.
    unfold loadIntermediate. rewrite Hfs, pemLoop_bundle by exact Hpre.
    simpl. apply pemLoop_truncated. exact Hp.
Qed.

End Loader.

Module Session.

Lemma callMutation_issue s mu : callMutation s mu = issue s mu.
Proof. destruct mu; reflexivity. Qed.

(** What [applyMutations] does: it only appends to the host log, either
    every mutation accepted, or an accepted prefix followed by the refused
    call; the session flags are untouched. *)
Lemma applyMutations_spec s ops s' r :
  applyMutations s ops = (s', r) ->
  smimeSigned s' = smimeSigned s /\ genericError s' = genericError s /\
  mailFrom s' = mailFrom s /\
  exists calls, host_log (ctx s') = host_log (ctx s) ++ calls /\
    ((r = None /\ calls = accepted ops) \/
     (r = Some SessionError /\
      exists k m, ops !! k = Some m /\ calls = accepted (take k ops) ++ [(m, false)])).
Proof.
  revert s. induction ops as [|mu ops IH]; intros s Happ; simpl in Happ.
  - inversion Happ; subst. repeat split; try reflexivity.
    exists []. split; [rewrite app_nil_r; reflexivity|]. left. split; reflexivity.
  - rewrite callMutation_issue in Happ. unfold issue, smfiCall in Happ.
    destruct (hostAccepts (ctx s)) eqn:Ha; simpl in Happ.
    + apply IH in Happ as (H1 & H2 & H3 & calls & Hlog & Hr). simpl in *.
      repeat split; try assumption.
      exists ((mu, true) :: calls). split.
      * rewrite Hlog. simpl. rewrite <- app_assoc. reflexivity.
      * destruct Hr as [[-> ->]|[-> (k & m & Hk & ->)]].
        -- left. split; reflexivity.
        -- right. split; [reflexivity|]. exists (S k), m. split; [exact Hk|].
           reflexivity.
    + inversion Happ; subst. simpl. repeat split; try reflexivity.
      exists [(mu, false)]. split; [reflexivity|].
      right. split; [reflexivity|]. exists 0, mu. split; reflexivity.
Qed.

Lemma newCalls_append s s' calls :
  host_log (ctx s') = host_log (ctx s) ++ calls -> newCalls s s' = calls.
Proof. intros H. unfold newCalls. rewrite H. apply drop_app_length. Qed.

Lemma newCalls_same s s' : ctx s' = ctx s -> newCalls s s' = [].
Proof.
  intros H. unfold newCalls. rewrite H. apply drop_ge. lia.
Qed.

Lemma refused_not_accepted m ops calls :
  In (m, false) calls -> calls <> accepted ops.
Proof.
  intros Hin ->. unfold accepted in Hin. apply in_map_iff in Hin as (x & Hx & _).
  discriminate Hx.
Qed.

(** The outcome of [signRun] and the flag agree. *)
Lemma signRun_flag env s :
  smimeSigned (fst (signRun env s)) = true <->
  exists a, snd (signRun env s) = Signed a.
Proof.
  unfold signRun. destruct (prepare env s) as [a|e].
  - destruct (applyMutations s (mutationPlan a)) as [s' [e|]]; simpl.
    + split; [discriminate|]. intros (x & Hx). discriminate Hx.
    + split; [intros _; exists a; reflexivity|reflexivity].
  - destruct e; simpl; split; try discriminate; intros (x & Hx); discriminate Hx.
Qed.

End Session.

Module Sign.
Import Session.

(** C1: the success flag is true exactly when the artifact was built and
    every mutation of the Header Delta and the body replacement was
    accepted; a refused mutation (partial application) leaves it false. *)
Theorem sign_flag_iff_fully_applied env s :
  (isSmimeSigned (sign env s) = true <->
   exists a, prepare env s = Ok a /\
             newCalls s (sign env s) = accepted (mutationPlan a)) /\
  ((exists m, In (m, false) (newCalls s (sign env s))) ->
   isSmimeSigned (sign env s) = false).
Proof.
  unfold sign, signRun, isSmimeSigned.
  destruct (prepare env s) as [a|e] eqn:Hp.
  - destruct (applyMutations s (mutationPlan a)) as [s' r] eqn:E.
    apply applyMutations_spec in E as (_ & _ & _ & calls & Hlog & Hr).
    destruct r as [e|]; simpl.
    + destruct Hr as [[Hr _]|[_ (k & m & _ & Hc)]]; [discriminate|].
      assert (Hn : newCalls s (handleSSLError s') = calls)
        by (apply newCalls_append; exact Hlog).
      split; [split; [discriminate|]|intros _; reflexivity].
      intros (a' & Ha' & Hcalls). injection Ha' as <-.
      rewrite Hn in Hcalls. exfalso. apply (refused_not_accepted m (mutationPlan a) calls);
        [rewrite Hc; apply in_or_app; right; left; reflexivity|exact Hcalls].
    + destruct Hr as [[_ Hc]|[Hr _]]; [|discriminate].
      assert (Hn : newCalls s (setSigned s' true) = calls)
        by (apply newCalls_append; exact Hlog).
      rewrite Hn, Hc. split.
      * split; [intros _; exists a; split; reflexivity|reflexivity].
      * intros (m & Hm). exfalso.
        apply (refused_not_accepted m (mutationPlan a) (accepted (mutationPlan a)));
          [exact Hm|reflexivity].
  -     destruct e; simpl; (split; [split; [discriminate|]|intros _; reflexivity]);
      intros (a & Ha & _); discriminate Ha.
Qed.

(** C3: a sender without a registered identity leaves the session unsigned
    and the host context (message and call log) exactly as it was. *)
Theorem sign_no_identity_untouched env s :
  env_store env !! mailFrom s = None ->
  isSmimeSigned (sign env s) = false /\ ctx (sign env s) = ctx s /\
  newCalls s (sign env s) = [].
Proof.
  intros Hnone. unfold sign, signRun, prepare. rewrite Hnone. simpl.
  split; [reflexivity|split; [reflexivity|]].
  apply newCalls_same. reflexivity.
Qed.

(** C4: a certificate whose private key fails to load ends in
    [CryptoFailure], unsigned, with no mutation issued. *)
Theorem sign_key_load_failure env s id :
  env_store env !! mailFrom s = Some id ->
  cp_load_key (env_cp env) (id_key_pem id) = None ->
  snd (signRun env s) = Unsigned CryptoFailure /\
  isSmimeSigned (sign env s) = false /\ ctx (sign env s) = ctx s /\
  newCalls s (sign env s) = [].
Proof.
  intros Hid Hkey. unfold sign, signRun, prepare. rewrite Hid. simpl.
  rewrite Hkey. simpl.
  split; [reflexivity|split; [reflexivity|split; [reflexivity|]]].
  apply newCalls_same. reflexivity.
Qed.

Lemma map_fst_accepted ops : map fst (accepted ops) = ops.
Proof. unfold accepted. rewrite map_map. apply map_id. Qed.

Lemma mutationPlan_ranked a i j mi mj :
  i < j -> mutationPlan a !! i = Some mi -> mutationPlan a !! j = Some mj ->
  mutationRank mi <= mutationRank mj.
Proof.
  intros Hij Hi Hj.
  destruct i as [|[|[|[|[|[|i]]]]]]; simpl in Hi; try discriminate;
  destruct j as [|[|[|[|[|[|j]]]]]]; simpl in Hj; try discriminate;
  injection Hi as <-; injection Hj as <-; simpl; lia.
Qed.

(** The calls issued by one [sign] are a prefix of the mutation plan. *)
Lemma sign_calls_prefix env s :
  map fst (newCalls s (sign env s)) = [] \/
  exists a k, prepare env s = Ok a /\
              map fst (newCalls s (sign env s)) = take k (mutationPlan a).
Proof.
  unfold sign, signRun.
  destruct (prepare env s) as [a|e] eqn:Hp.
  - destruct (applyMutations s (mutationPlan a)) as [s' r] eqn:E.
    apply applyMutations_spec in E as (_ & _ & _ & calls & Hlog & Hr).
    right. exists a.
    destruct r as [e|]; simpl.
    + destruct Hr as [[Hr _]|[_ (k & m & Hk & Hc)]]; [discriminate|].
      exists (S k). split; [reflexivity|].
      rewrite (newCalls_append _ _ calls) by exact Hlog.
      rewrite Hc, map_app, map_fst_accepted, (take_S_r _ _ m) by exact Hk.
      reflexivity.
    + destruct Hr as [[_ Hc]|[Hr _]]; [|discriminate].
      exists (length (mutationPlan a)). split; [reflexivity|].
      rewrite (newCalls_append _ _ calls) by exact Hlog.
      rewrite Hc, map_fst_accepted, take_ge by lia. reflexivity.
  - left. destruct e; simpl; rewrite newCalls_same by reflexivity; reflexivity.
Qed.

(** C5: the mutations one [sign] issues are removals, then additions, then
    the body replacement: a prefix of the plan, ordered by kind. *)
Theorem sign_mutation_order env s :
  (map fst (newCalls s (sign env s)) = [] \/
   exists a k, prepare env s = Ok a /\
               map fst (newCalls s (sign env s)) = take k (mutationPlan a)) /\
  (forall i j mi mj, i < j ->
     map fst (newCalls s (sign env s)) !! i = Some mi ->
     map fst (newCalls s (sign env s)) !! j = Some mj ->
     mutationRank mi <= mutationRank mj).
Proof.
  split; [apply sign_calls_prefix|].
  intros i j mi mj Hij Hi Hj.
  destruct (sign_calls_prefix env s) as [Hnil|(a & k & _ & Hk)].
  - rewrite Hnil in Hi. discriminate.
  - rewrite Hk in Hi, Hj.
    apply lookup_take_Some in Hi as [Hi _]. apply lookup_take_Some in Hj as [Hj _].
    exact (mutationPlan_ranked a i j mi mj Hij Hi Hj).
Qed.

(** C6: every failure of the signing path is caught by [sign]: the outcome
    names it, the session is unsigned, and failures other than [NotFound]
    raise the generic error flag; [sign] itself is total. *)
Theorem sign_catches_all_failures env s :
  (forall e, prepare env s = Err e ->
     snd (signRun env s) = Unsigned e /\ isSmimeSigned (sign env s) = false /\
     (e <> NotFound -> genericError (sign env s) = true)) /\
  (forall a s' e, prepare env s = Ok a ->
     applyMutations s (mutationPlan a) = (s', Some e) ->
     e = SessionError /\ snd (signRun env s) = Unsigned e /\
     isSmimeSigned (sign env s) = false /\ genericError (sign env s) = true) /\
  (forall e, snd (signRun env s) = Unsigned e -> isSmimeSigned (sign env s) = false).
Proof.
  split; [|split].
  - intros e Hp. unfold sign, signRun. rewrite Hp.
    destruct e; simpl; repeat split; try reflexivity; intros Hne; congruence.
  - intros a s' e Hp Happ. unfold sign, signRun. rewrite Hp, Happ. simpl.
    apply applyMutations_spec in Happ as (_ & _ & _ & calls & _ & Hr).
    destruct Hr as [[Hr _]|[Hr _]]; [discriminate|]. injection Hr as ->.
    repeat split.
  - intros e Ho. apply not_true_is_false. intros Ht.
    apply signRun_flag in Ht as (a & Ha). unfold sign in *. congruence.
Qed.

End Sign.

Module Scenario.
Import Session.

(** A host that accepts every call applies the whole sequence. *)
Lemma applyMutations_accept_all s ops :
  host_cutoff (ctx s) = None ->
  applyMutations s ops =
  (withCtx s {| host_msg := fold_left applyMutation ops (host_msg (ctx s));
                host_log := host_log (ctx s) ++ accepted ops;
                host_cutoff := None |}, None).
Proof.
  revert s. induction ops as [|mu ops IH]; intros s Hc; simpl.
  - destruct s as [[m l c] f g w]; simpl in *; subst. rewrite app_nil_r. reflexivity.
  - rewrite callMutation_issue. unfold issue, smfiCall, hostAccepts. rewrite Hc. simpl.
    rewrite IH by (simpl; first [exact Hc|reflexivity]). simpl. rewrite <- app_assoc. destruct s as [[m l c] f g w]; simpl in *; subst. reflexivity.
Qed.

(** C8: a signer with a loadable key and no intermediate bundle, on a host
    that accepts the mutations, gets a chain of one certificate (the leaf),
    a signed content type among the headers, and a multipart/signed body
    whose second part is the encoded detached signature over the first. *)
Theorem sign_leaf_only env s id key sg enc :
  env_store env !! mailFrom s = Some id ->
  env_fs env !! id_intermediate id = None ->
  cp_load_key (env_cp env) (id_key_pem id) = Some key ->
  cp_sign (env_cp env) key (id_cert id) [] (firstPart (host_msg (ctx s))) = Some sg ->
  cp_encode (env_cp env) sg = Some enc ->
  (forall k c ch d x, cp_sign (env_cp env) k c ch d = Some x ->
                      cp_verify (env_cp env) c ch d x = true) ->
  host_cutoff (ctx s) = None ->
  exists a, snd (signRun env s) = Signed a /\
    art_chain a = [id_cert id] /\
    isSmimeSigned (sign env s) = true /\
    In ("Content-Type", signedContentType)%string
       (msg_headers (host_msg (ctx (sign env s)))) /\
    msg_body (host_msg (ctx (sign env s))) = renderSigned (art_part1 a) (art_enc a) /\
    art_part1 a = firstPart (host_msg (ctx s)) /\
    cp_encode (env_cp env) (art_sig a) = Some (art_enc a) /\
    cp_verify (env_cp env) (id_cert id) (tail (art_chain a)) (art_part1 a) (art_sig a)
      = true.
Proof.
  intros Hid Hfs Hkey Hsign Henc Hsound Hcut.
  assert (Hprep : prepare env s =
    Ok {| art_chain := [id_cert id]; art_part1 := firstPart (host_msg (ctx s));
          art_sig := sg; art_enc := enc;
          art_mime := renderSigned (firstPart (host_msg (ctx s))) enc |}).
  { unfold prepare. rewrite Hid. simpl. rewrite Hkey. simpl.
    unfold loadIntermediate. rewrite Hfs. simpl. rewrite Hsign. simpl.
    rewrite Henc. reflexivity. }
  eexists. unfold sign, signRun. rewrite Hprep.
  rewrite applyMutations_accept_all by exact Hcut. simpl.
  split; [reflexivity|]. split; [reflexivity|]. split; [reflexivity|].
  split; [apply in_or_app; right; left; reflexivity|].
  split; [reflexivity|]. split; [reflexivity|]. split; [exact Henc|].
  apply Hsound with key. exact Hsign.
Qed.

End Scenario.

Module Lifecycle.

Lemma stripAngles_filter raw :
  list_ascii_of_string (stripAngles raw) =
  List.filter (fun c => negb (is_angle c)) (list_ascii_of_string raw).
Proof.
  induction raw as [|c r IH]; simpl; [reflexivity|].
  destruct (is_angle c); simpl; rewrite IH; reflexivity.
Qed.

(** C9: the normalised sender is the raw MAIL FROM with every '<' and '>'
    removed and every other character kept, in order and case. *)
Theorem mailFrom_normalized h raw :
  mailFrom (newSmime h raw) = stripAngles raw /\
  list_ascii_of_string (mailFrom (newSmime h raw)) =
  List.filter (fun c => negb (is_angle c)) (list_ascii_of_string raw).
Proof. split; [reflexivity|apply stripAngles_filter]. Qed.

Lemma signMany_flag envs s s' os :
  signMany envs s = (s', os) -> smimeSigned s' = true ->
  (os = [] /\ s' = s) \/ exists a, last os = Some (Signed a).
Proof.
  revert s s' os. induction envs as [|e r IH]; intros s s' os Hrun Hflag; simpl in Hrun.
  - injection Hrun as <- <-. left. split; reflexivity.
  - destruct (signRun e s) as [s1 o] eqn:E1.
    destruct (signMany r s1) as [s2 os'] eqn:E2.
    injection Hrun as <- <-.
    destruct (IH s1 s2 os' E2 Hflag) as [[-> ->]|(a & Ha)].
    + right. pose proof (proj1 (Session.signRun_flag e s)) as Hf.
      rewrite E1 in Hf. destruct (Hf Hflag) as (a & Ha). exists a. simpl in Ha.
      rewrite Ha. reflexivity.
    + right. exists a. destruct os' as [|o' os']; [discriminate|].
      rewrite <- Ha. reflexivity.
Qed.

(** C10: a new session is unsigned, and after any sequence of [sign] calls
    the flag is true only if the last call completed successfully. *)
Theorem newSmime_unsigned_until_success h raw envs :
  isSmimeSigned (newSmime h raw) = false /\
  (isSmimeSigned (fst (signMany envs (newSmime h raw))) = true ->
   exists a, last (snd (signMany envs (newSmime h raw))) = Some (Signed a)).
Proof.
  split; [reflexivity|]. intros Ht.
  destruct (signMany envs (newSmime h raw)) as [s' os] eqn:E. simpl in *.
  destruct (signMany_flag envs _ s' os E Ht) as [[_ ->]|H]; [discriminate|exact H].
Qed.

End Lifecycle.

Module Witnesses.

Lemma toyProvider_sound k c ch d x :
  cp_sign toyProvider k c ch d = Some x -> cp_verify toyProvider c ch d x = true.
Proof.
  simpl. destruct (String.eqb k c); intros H; [|discriminate].
  injection H as <-. apply String.eqb_refl.
Qed.

Lemma sampleSegs_ok : Forall (segmentOk toyProvider) sampleSegs.
Proof.
  repeat constructor; unfold BEGIN_CERT, END_CERT; simpl; discriminate.
Qed.

Lemma loadIntermediate_bundle_witness :
  loadIntermediate toyProvider sampleFs "/etc/sigh/chain.pem" =
    Ok (omap (segmentCert toyProvider) sampleSegs) /\
  length (omap (segmentCert toyProvider) sampleSegs) = countCerts sampleSegs.
Proof.
  apply (Loader.loadIntermediate_bundle toyProvider sampleFs "/etc/sigh/chain.pem"
           sampleSegs); [reflexivity|exact sampleSegs_ok].
Defined.

Lemma loadIntermediate_absent_or_malformed_witness :
  loadIntermediate toyProvider sampleFs "/etc/sigh/none.pem" = Ok [] /\
  loadIntermediate toyProvider sampleFs "/etc/sigh/bad.pem" = Err ParseError /\
  loadIntermediate toyProvider sampleFs "/etc/sigh/open.pem" = Err ParseError.
Proof.
  destruct Loader.loadIntermediate_absent_or_malformed as (H1 & H2 & H3).
  split; [|split].
  - apply H1. reflexivity.
  - apply (H2 toyProvider sampleFs "/etc/sigh/bad.pem" sampleSegs [""] ["x"]).
    + exact sampleSegs_ok.
    + constructor; [unfold END_CERT; discriminate|constructor].
    + reflexivity.
    + reflexivity.
  - apply (H3 toyProvider sampleFs "/etc/sigh/open.pem" sampleSegs ["SktM"]).
    + exact sampleSegs_ok.
    + constructor; [unfold END_CERT; discriminate|constructor].
    + reflexivity.
Defined.

Lemma sign_no_identity_untouched_witness :
  let s := newSmime sampleHost "<bob@example.com>" in
  isSmimeSigned (sign sampleEnv s) = false /\ ctx (sign sampleEnv s) = ctx s /\
  newCalls s (sign sampleEnv s) = [].
Proof. apply Sign.sign_no_identity_untouched. reflexivity. Defined.

Lemma sign_key_load_failure_witness :
  let s := newSmime sampleHost "<carol@example.com>" in
  snd (signRun sampleEnv s) = Unsigned CryptoFailure /\
  isSmimeSigned (sign sampleEnv s) = false /\ ctx (sign sampleEnv s) = ctx s /\
  newCalls s (sign sampleEnv s) = [].
Proof. apply (Sign.sign_key_load_failure _ _ carolId); reflexivity. Defined.

Lemma sign_leaf_only_witness :
  let s := newSmime sampleHost "<alice@example.com>" in
  exists a, snd (signRun sampleEnv s) = Signed a /\
    art_chain a = ["alice"%string] /\
    isSmimeSigned (sign sampleEnv s) = true /\
    In ("Content-Type", signedContentType)%string
       (msg_headers (host_msg (ctx (sign sampleEnv s)))) /\
    msg_body (host_msg (ctx (sign sampleEnv s))) = renderSigned (art_part1 a) (art_enc a) /\
    art_part1 a = firstPart (host_msg (ctx s)) /\
    cp_encode toyProvider (art_sig a) = Some (art_enc a) /\
    cp_verify toyProvider "alice" (tail (art_chain a)) (art_part1 a) (art_sig a) = true.
Proof.
  apply (Scenario.sign_leaf_only sampleEnv _ aliceId "alice"
           ("alice|" ++ firstPart (host_msg sampleHost))%string
           ("alice|" ++ firstPart (host_msg sampleHost))%string);
    try reflexivity.
  exact toyProvider_sound.
Defined.

End Witnesses.
